(** * The CPU burn controller of the observability demo generator

    A shallow embedding of [src/main.py]: the [log] helper, the [/burn]
    handler and the [cpu_burner] background loop, as small-step threads over
    one shared world (the module globals [burn_level], [burn_lock], the two
    gauges, the logger, the clock and the random generator); and the other
    request handlers ([/ok], [/warn], [/error], [/slow], [/spam-logs]) as
    sequential code over that world and the request metrics.

    Conventions.
    - Python integers are [Z]; Python floats (seconds, gauge values) are
      idealised as exact rationals [Q], so [0.02 * lvl] is [(2#100) * lvl].
    - A thread is a program point carrying its local variables; one step
      executes one statement.  Threads interleave at statement granularity.
    - Calls into libraries (prometheus gauges, [time], [random]) are
      collaborators: a step that makes such a call takes the call's outcome
      from the environment, either a normal return or a raised exception. *)

From Stdlib Require Import ZArith QArith Qround Lqa Lia Ascii String.
From stdpp Require Import base option list strings gmap.

Local Open Scope Z_scope.

(** ** Python values, dictionaries and exceptions *)

Inductive PyVal :=
| PNone
| PBool (b : bool)
| PInt (z : Z)
| PFloat (q : Q)
| PStr (s : string).

(** A [dict] keeps insertion order; assigning an existing key replaces its
    value in place. *)
Definition Dict := list (string * PyVal).

Fixpoint dict_get (k : string) (d : Dict) : option PyVal :=
  match d with
  | [] => None
  | (k', v) :: d' => if String.eqb k k' then Some v else dict_get k d'
  end.

Fixpoint dict_set (k : string) (v : PyVal) (d : Dict) : Dict :=
  match d with
  | [] => [(k, v)]
  | (k', v') :: d' =>
      if String.eqb k k' then (k', v) :: d' else (k', v') :: dict_set k v d'
  end.

(** [{**d, **fields}] *)
Definition dict_update (d fields : Dict) : Dict :=
  fold_left (fun acc kv => dict_set (fst kv) (snd kv) acc) fields d.

(** An exception: its class name and its message. *)
Inductive PyExn := Raise (cls : string) (msg : string).

Definition TypeError (msg : string) : PyExn := Raise "TypeError" msg.
Definition AttributeError (msg : string) : PyExn := Raise "AttributeError" msg.

Definition is_TypeError (e : PyExn) : bool :=
  match e with Raise cls _ => String.eqb cls "TypeError" end.

(** ** Binding the arguments of a call

    [def f(p1, ..., pn, **kw)]: positional arguments fill the parameters from
    the left; a keyword argument whose name is a parameter binds that
    parameter, and it is a [TypeError] when the parameter already has a
    value; any other keyword goes to [**kw]. *)

Record Signature := {
  sig_name : string;
  sig_params : list string;
  sig_varkw : bool
}.

Fixpoint bind_positional (params : list string) (args : list PyVal)
  : option Dict :=
  match args, params with
  | [], _ => Some []
  | _ :: _, [] => None
  | a :: args', p :: params' =>
      match bind_positional params' args' with
      | Some b => Some ((p, a) :: b)
      | None => None
      end
  end.

Definition is_param (sig : Signature) (k : string) : bool :=
  existsb (String.eqb k) (sig_params sig).

Fixpoint bind_keywords (sig : Signature) (kwargs : Dict) (bound extra : Dict)
  : PyExn + (Dict * Dict) :=
  match kwargs with
  | [] => inr (bound, extra)
  | (k, v) :: kwargs' =>
      if is_param sig k then
        match dict_get k bound with
        | Some _ =>
            inl (TypeError (sig_name sig ++ "() got multiple values for argument '"
                            ++ k ++ "'"))
        | None => bind_keywords sig kwargs' (bound ++ [(k, v)]) extra
        end
      else if sig_varkw sig then
        bind_keywords sig kwargs' bound (extra ++ [(k, v)])
      else
        inl (TypeError (sig_name sig ++ "() got an unexpected keyword argument '"
                        ++ k ++ "'"))
  end.

Definition missing_params (sig : Signature) (bound : Dict) : list string :=
  List.filter (fun p => match dict_get p bound with None => true | Some _ => false end)
    (sig_params sig).

Definition bind_call (sig : Signature) (args : list PyVal) (kwargs : Dict)
  : PyExn + (Dict * Dict) :=
  match bind_positional (sig_params sig) args with
  | None =>
      inl (TypeError (sig_name sig ++ "() takes too many positional arguments"))
  | Some bound =>
      match bind_keywords sig kwargs bound [] with
      | inl e => inl e
      | inr (bound', extra) =>
          match missing_params sig bound' with
          | [] => inr (bound', extra)
          | _ :: _ =>
              inl (TypeError (sig_name sig
                              ++ "() missing required positional arguments"))
          end
      end
  end.

(** ** [str.lower] on ASCII and the logger's methods *)

Definition lower_ascii (c : ascii) : ascii :=
  let n := nat_of_ascii c in
  if ((65 <=? n)%nat && (n <=? 90)%nat)%bool then ascii_of_nat (n + 32) else c.

Fixpoint lower (s : string) : string :=
  match s with
  | EmptyString => EmptyString
  | String c s' => String (lower_ascii c) (lower s')
  end.

Inductive LogMethod := LDebug | LInfo | LWarning | LError | LCritical.

(** [getattr(logger, name, logger.info)] for the logging methods of
    [logging.Logger]; every other name falls back to [logger.info]. *)
Definition logger_method (name : string) : LogMethod :=
  if String.eqb name "debug" then LDebug
  else if String.eqb name "info" then LInfo
  else if String.eqb name "warning" then LWarning
  else if String.eqb name "warn" then LWarning
  else if String.eqb name "error" then LError
  else if String.eqb name "exception" then LError
  else if String.eqb name "critical" then LCritical
  else if String.eqb name "fatal" then LCritical
  else LInfo.

(** ** The environment of the process

    [APP_NAME] is read from the process environment at import time.  The
    clock and the random generator are library collaborators: [tick] is the
    time that passes between two consecutive readings of [time.time()], and
    [random_random] is [random.random()] as a function of the generator's
    state. *)

Class Env := {
  APP_NAME : string;
  tick : Q;
  random_random : N -> Q * N
}.

(** CPython's [random.random()]: two 32-bit outputs [a], [b] of the
    generator give [(a >> 5) * 2^26 + (b >> 6)] over [2^53].  The generator
    itself is replaced by a linear congruential stand-in. *)
Definition lcg_next (s : N) : N := ((s * 1664525 + 1013904223) mod 4294967296)%N.

Definition res53 (s : N) : Q * N :=
  let a := lcg_next s in
  let b := lcg_next a in
  (Z.of_N (N.shiftr a 5 * 67108864 + N.shiftr b 6) # 9007199254740992, b).

Definition demo_env : Env :=
  {| APP_NAME := "demo-generator"; tick := 1 # 1000; random_random := res53 |}.

(** ** The shared world *)

Inductive Thread := TBurner | THandler (i : nat).

(** What a thread does with its time: a call of [time.sleep], or one
    execution of the body [pass] of the busy loop, tagged with the clock
    reading that let it run. *)
Inductive Event := ESleep (d : Q) | EPass (t : Q).

(** [burn_lock] is a [threading.Lock]; the model remembers which thread
    acquired it.  [log_out] is what the logger received, latest first, and
    [events] is the timing trace, latest first. *)
Record World := {
  burn_level : Z;
  burn_lock : option Thread;
  CPU_BURN : Q;
  RANDOM_GAUGE : Q;
  now : Q;
  rng : N;
  log_out : list (LogMethod * Dict);
  events : list Event
}.

Definition set_burn_level (v : Z) (w : World) : World :=
  {| burn_level := v; burn_lock := burn_lock w; CPU_BURN := CPU_BURN w;
     RANDOM_GAUGE := RANDOM_GAUGE w; now := now w; rng := rng w;
     log_out := log_out w; events := events w |}.

Definition set_burn_lock (o : option Thread) (w : World) : World :=
  {| burn_level := burn_level w; burn_lock := o; CPU_BURN := CPU_BURN w;
     RANDOM_GAUGE := RANDOM_GAUGE w; now := now w; rng := rng w;
     log_out := log_out w; events := events w |}.

Definition set_CPU_BURN (v : Q) (w : World) : World :=
  {| burn_level := burn_level w; burn_lock := burn_lock w; CPU_BURN := v;
     RANDOM_GAUGE := RANDOM_GAUGE w; now := now w; rng := rng w;
     log_out := log_out w; events := events w |}.

Definition set_RANDOM_GAUGE (v : Q) (r : N) (w : World) : World :=
  {| burn_level := burn_level w; burn_lock := burn_lock w; CPU_BURN := CPU_BURN w;
     RANDOM_GAUGE := v; now := now w; rng := r;
     log_out := log_out w; events := events w |}.

Definition set_now (t : Q) (w : World) : World :=
  {| burn_level := burn_level w; burn_lock := burn_lock w; CPU_BURN := CPU_BURN w;
     RANDOM_GAUGE := RANDOM_GAUGE w; now := t; rng := rng w;
     log_out := log_out w; events := events w |}.

Definition emit (m : LogMethod) (record : Dict) (w : World) : World :=
  {| burn_level := burn_level w; burn_lock := burn_lock w; CPU_BURN := CPU_BURN w;
     RANDOM_GAUGE := RANDOM_GAUGE w; now := now w; rng := rng w;
     log_out := (m, record) :: log_out w; events := events w |}.

Definition add_event (e : Event) (w : World) : World :=
  {| burn_level := burn_level w; burn_lock := burn_lock w; CPU_BURN := CPU_BURN w;
     RANDOM_GAUGE := RANDOM_GAUGE w; now := now w; rng := rng w;
     log_out := log_out w; events := e :: events w |}.

(** The world when the module has been imported: [burn_level = 0], a fresh
    lock, both gauges at their initial 0. *)
Definition initial_world (t0 : Q) (seed : N) : World :=
  {| burn_level := 0; burn_lock := None; CPU_BURN := 0; RANDOM_GAUGE := 0;
     now := t0; rng := seed; log_out := []; events := [] |}.

(** ** The [/burn] query parameter: [Query(0, ge=0, le=10)] *)

Record Query := { q_default : Z; q_ge : option Z; q_le : option Z }.

(** The framework's validation error for a value that violates [ge] or [le]
    (answered with a client-error status, the handler is not called). *)
Inductive QueryError := InvalidLevel (v : Z).

Definition Query_resolve (q : Query) (arg : option Z) : QueryError + Z :=
  match arg with
  | None => inr (q_default q)
  | Some v =>
      let ge_ok := match q_ge q with Some b => b <=? v | None => true end in
      let le_ok := match q_le q with Some b => v <=? b | None => true end in
      if (ge_ok && le_ok)%bool then inr v else inl (InvalidLevel v)
  end.

Definition burn_level_query : Query :=
  {| q_default := 0; q_ge := Some 0; q_le := Some 10 |}.

(** ** Program points of the two kinds of thread *)

(** A request thread running [burn(level)], lines 156-160. *)
Inductive Handler :=
| HAcquire (level : Z)      (* 157: with burn_lock: (enter) *)
| HAssign (level : Z)       (* 158: burn_level = level *)
| HRelease (level : Z)      (* 158: end of the with block *)
| HLog (level : Z)          (* 159: log("warning", ..., level=level) *)
| HReturn (level : Z)       (* 160: return {"burn_level": burn_level} *)
| HDone (r : PyExn + Dict). (* the call is over: exception or body *)

(** The background thread running [cpu_burner()], lines 135-150. *)
Inductive Burner :=
| BAcquire                  (* 136: with burn_lock: (enter) *)
| BRead                     (* 137: lvl = burn_level *)
| BRelease (lvl : Z)        (* 137: end of the with block *)
| BSetCpu (lvl : Z)         (* 138: CPU_BURN.set(lvl) *)
| BSetRandom (lvl : Z)      (* 139: RANDOM_GAUGE.set(random.random()) *)
| BTest (lvl : Z)           (* 141: if lvl <= 0 *)
| BIdleSleep                (* 142-143: time.sleep(0.2); continue *)
| BDeadline (lvl : Z)       (* 147: end = time.time() + (0.02 * lvl) *)
| BSpin (deadline : Q)      (* 148-149: while time.time() < end: pass *)
| BSleep                    (* 150: time.sleep(0.05) *)
| BDead (e : PyExn).        (* an exception has left the function *)

Inductive HttpResponse :=
| Http200 (body : Dict)
| Http422 (e : QueryError)
| Http500 (e : PyExn).

Section Semantics.

Context {env : Env}.

(** [time.time()]: the reading, and the clock moves on. *)
Definition time_time (w : World) : Q * World :=
  (now w, set_now (now w + tick)%Q w).

(** [time.sleep(d)] *)
Definition time_sleep (d : Q) (w : World) : World :=
  add_event (ESleep d) (set_now (now w + d)%Q w).

(** *** [log], lines 21-30 *)

Definition log_sig : Signature :=
  {| sig_name := "log"; sig_params := ["level"; "msg"]; sig_varkw := true |}.

Definition log (args : list PyVal) (kwargs : Dict) (w : World) : PyExn + World :=
  match bind_call log_sig args kwargs with
  | inl e => inl e
  | inr (bound, fields) =>
      match dict_get "level" bound, dict_get "msg" bound with
      | Some level, Some msg =>
          let (ts, w1) := time_time w in
          (* [json.dumps(record)]: the line is kept as the record itself *)
          let record :=
            dict_update [("app", PStr (APP_NAME)); ("level", level);
                         ("msg", msg); ("ts", PFloat ts)] fields in
          match level with
          | PStr l => inr (emit (logger_method (lower l)) record w1)
          | _ => inl (AttributeError "object has no attribute 'lower'")
          end
      | _, _ => inl (TypeError "log() missing required positional arguments")
      end
  end.

(** *** One step of a request thread in [burn] *)

Definition step_handler (me : Thread) (h : Handler) (w : World)
  : option (Handler * World) :=
  match h with
  | HAcquire level =>
      match burn_lock w with
      | None => Some (HAssign level, set_burn_lock (Some me) w)
      | Some _ => None
      end
  | HAssign level => Some (HRelease level, set_burn_level level w)
  | HRelease level => Some (HLog level, set_burn_lock None w)
  | HLog level =>
      match log [PStr "warning"; PStr "CPU burn updated"]
                [("endpoint", PStr "/burn"); ("level", PInt level)] w with
      | inl e => Some (HDone (inl e), w)
      | inr w' => Some (HReturn level, w')
      end
  | HReturn level => Some (HDone (inr [("burn_level", PInt (burn_level w))]), w)
  | HDone _ => None
  end.

(** *** One step of the background thread in [cpu_burner]

    [fault] is the outcome the environment gives to the library call of the
    step, when the step makes one: [None] for a normal return, [Some e] when
    the call raises [e].  The function has no [try], so a raised exception
    leaves the loop. *)

Definition calling (fault : option PyExn) (k : Burner * World) (w : World)
  : option (Burner * World) :=
  match fault with
  | Some e => Some (BDead e, w)
  | None => Some k
  end.

Definition step_burner (fault : option PyExn) (b : Burner) (w : World)
  : option (Burner * World) :=
  match b with
  | BAcquire =>
      match burn_lock w with
      | None => Some (BRead, set_burn_lock (Some TBurner) w)
      | Some _ => None
      end
  | BRead => Some (BRelease (burn_level w), w)
  | BRelease lvl => Some (BSetCpu lvl, set_burn_lock None w)
  | BSetCpu lvl => calling fault (BSetRandom lvl, set_CPU_BURN (inject_Z lvl) w) w
  | BSetRandom lvl =>
      let (x, r) := random_random (rng w) in
      calling fault (BTest lvl, set_RANDOM_GAUGE x r w) w
  | BTest lvl => Some (if lvl <=? 0 then BIdleSleep else BDeadline lvl, w)
  | BIdleSleep => calling fault (BAcquire, time_sleep (2 # 10) w) w
  | BDeadline lvl =>
      let (t, w1) := time_time w in
      calling fault (BSpin (t + (2 # 100) * inject_Z lvl)%Q, w1) w
  | BSpin deadline =>
      let (t, w1) := time_time w in
      calling fault
        (if Qle_bool deadline t then (BSleep, w1)
         else (BSpin deadline, add_event (EPass t) w1)) w
  | BSleep => calling fault (BAcquire, time_sleep (5 # 100) w) w
  | BDead _ => None
  end.

(** *** Running one thread on its own *)

(** [burn(level)] called and run to its end by thread [me]: the result is
    the returned body or the exception that left the function. *)
Fixpoint run_handler (fuel : nat) (me : Thread) (h : Handler) (w : World)
  : option ((PyExn + Dict) * World) :=
  match h with
  | HDone r => Some (r, w)
  | _ =>
      match fuel with
      | O => None
      | S fuel' =>
          match step_handler me h w with
          | Some (h', w') => run_handler fuel' me h' w'
          | None => None
          end
      end
  end.

Definition burn (level : Z) (w : World) : option ((PyExn + Dict) * World) :=
  run_handler 5 (THandler 0) (HAcquire level) w.

(** [GET /burn?level=arg]: the framework resolves and validates the query
    parameter, calls [burn], and turns an escaping exception into a
    server-error response. *)
Definition burn_endpoint (arg : option Z) (w : World)
  : option (HttpResponse * World) :=
  match Query_resolve burn_level_query arg with
  | inl err => Some (Http422 err, w)
  | inr level =>
      match burn level w with
      | Some (inr body, w') => Some (Http200 body, w')
      | Some (inl e, w') => Some (Http500 e, w')
      | None => None
      end
  end.

(** The background thread fed with the outcomes of its library calls. *)
Fixpoint run_burner (faults : list (option PyExn)) (b : Burner) (w : World)
  : option (Burner * World) :=
  match faults with
  | [] => Some (b, w)
  | f :: faults' =>
      match step_burner f b w with
      | Some (b', w') => run_burner faults' b' w'
      | None => None
      end
  end.

(** [n] steps in which every library call returns normally. *)
Definition steps (n : nat) : list (option PyExn) := repeat None n.

(** *** The process: the background thread and the request threads *)

Record Sys := {
  world : World;
  burner : Burner;
  handlers : list Handler
}.

Inductive Action :=
| ABurner (fault : option PyExn)
| AHandler (i : nat)
| ARequest (arg : option Z).

Definition sys_step (a : Action) (s : Sys) : option Sys :=
  match a with
  | ABurner f =>
      match step_burner f (burner s) (world s) with
      | Some (b, w) => Some {| world := w; burner := b; handlers := handlers s |}
      | None => None
      end
  | AHandler i =>
      match handlers s !! i with
      | Some h =>
          match step_handler (THandler i) h (world s) with
          | Some (h', w) =>
              Some {| world := w; burner := burner s;
                      handlers := <[i := h']> (handlers s) |}
          | None => None
          end
      | None => None
      end
  | ARequest arg =>
      match Query_resolve burn_level_query arg with
      | inl _ => Some s
      | inr level =>
          Some {| world := world s; burner := burner s;
                  handlers := handlers s ++ [HAcquire level] |}
      end
  end.

(** Line 152 starts the background thread when the module is imported. *)
Definition initial_sys (t0 : Q) (seed : N) : Sys :=
  {| world := initial_world t0 seed; burner := BAcquire; handlers := [] |}.

Inductive reachable : Sys -> Prop :=
| reach_init t0 seed : reachable (initial_sys t0 seed)
| reach_step a s s' : reachable s -> sys_step a s = Some s' -> reachable s'.

Fixpoint sys_run (acts : list Action) (s : Sys) : option Sys :=
  match acts with
  | [] => Some s
  | a :: acts' =>
      match sys_step a s with
      | Some s' => sys_run acts' s'
      | None => None
      end
  end.

(** *** Predicates on program points *)

(** Inside [with burn_lock:] (lines 136-137 and 157-158). *)
Definition burner_holds (b : Burner) : bool :=
  match b with BRead | BRelease _ => true | _ => false end.

Definition handler_holds (h : Handler) : bool :=
  match h with HAssign _ | HRelease _ => true | _ => false end.

(** The burn phase, lines 147-149. *)
Definition spinning (b : Burner) : bool :=
  match b with BDeadline _ | BSpin _ => true | _ => false end.

Definition dead (b : Burner) : bool :=
  match b with BDead _ => true | _ => false end.


Definition level_of (h : Handler) : option Z :=
  match h with
  | HAcquire l | HAssign l | HRelease l | HLog l | HReturn l => Some l
  | HDone _ => None
  end.

Definition level_ok (h : Handler) : Prop :=
  match level_of h with Some l => 0 <= l <= 10 | None => True end.

(** A request that has come back with a body. *)
Definition returned (h : Handler) : bool :=
  match h with HReturn _ | HDone (inr _) => true | _ => false end.


(** Everything but the clock and the timing trace is the same. *)
Definition same_shared (w w' : World) : Prop :=
  burn_level w' = burn_level w /\ burn_lock w' = burn_lock w /\
  CPU_BURN w' = CPU_BURN w /\ RANDOM_GAUGE w' = RANDOM_GAUGE w /\
  rng w' = rng w /\ log_out w' = log_out w.

(** The exception that the call of [log] on line 159 raises. *)
Definition burn_log_error : PyExn :=
  TypeError "log() got multiple values for argument 'level'".

(** The invariant of the process: the level and the pending requests are in
    range, the lock names the one thread inside [with burn_lock:], and no
    request has come back from [burn]. *)
Record Inv (s : Sys) : Prop := {
  inv_level : 0 <= burn_level (world s) <= 10;
  inv_handlers : Forall level_ok (handlers s);
  inv_burner_lock :
    burner_holds (burner s) = true <-> burn_lock (world s) = Some TBurner;
  inv_handler_lock : forall i h,
    handlers s !! i = Some h ->
    (handler_holds h = true <-> burn_lock (world s) = Some (THandler i));
  inv_owner : forall i,
    burn_lock (world s) = Some (THandler i) -> (i < length (handlers s))%nat;
  inv_no_return : forall i h, handlers s !! i = Some h -> returned h = false;
  inv_log : log_out (world s) = []
}.

(** ** The request handlers of lines 46-127

    The other endpoints share the logger and the clock with [burn] and own
    three metrics: the counters [REQS] and [ERRORS], with one child per pair
    of label values, and the histogram [LAT], with one child per endpoint.
    A counter child is the number of its [inc()] calls; a histogram child is
    the list of the values it has observed, latest first. *)

Record App := {
  app_world : World;
  REQS : gmap (string * string) nat;
  ERRORS : gmap (string * string) nat;
  LAT : gmap string (list Q)
}.

Definition set_app_world (w : World) (a : App) : App :=
  {| app_world := w; REQS := REQS a; ERRORS := ERRORS a; LAT := LAT a |}.

Definition set_REQS (c : gmap (string * string) nat) (a : App) : App :=
  {| app_world := app_world a; REQS := c; ERRORS := ERRORS a; LAT := LAT a |}.

Definition set_ERRORS (c : gmap (string * string) nat) (a : App) : App :=
  {| app_world := app_world a; REQS := REQS a; ERRORS := c; LAT := LAT a |}.

Definition set_LAT (h : gmap string (list Q)) (a : App) : App :=
  {| app_world := app_world a; REQS := REQS a; ERRORS := ERRORS a; LAT := h |}.

Definition counter_value (c : gmap (string * string) nat) (l : string * string)
  : nat :=
  default O (c !! l).

(** [c.labels(l).inc()] *)
Definition counter_inc (l : string * string) (c : gmap (string * string) nat)
  : gmap (string * string) nat :=
  <[l := S (counter_value c l)]> c.

Definition observations (h : gmap string (list Q)) (endpoint : string) : list Q :=
  default [] (h !! endpoint).

(** [h.labels(endpoint).observe(v)] *)
Definition histogram_observe (endpoint : string) (v : Q)
  (h : gmap string (list Q)) : gmap string (list Q) :=
  <[endpoint := v :: observations h endpoint]> h.

(** What a handler gives back: a [dict] (sent as JSON with status 200), an
    explicit [Response(content, status_code)], or [None]. *)
Inductive Reply :=
| Json (body : Dict)
| Plain (content : string) (status_code : Z)
| ReplyNone.

(** A piece of handler code: it runs on the state of the application and
    ends with a value or with a raised exception. *)
Definition Py (A : Type) : Type := App -> (PyExn + A) * App.

Definition py_ret {A : Type} (x : A) : Py A := fun a => (inr x, a).

Definition py_raise {A : Type} (e : PyExn) : Py A := fun a => (inl e, a).

Definition py_bind {A B : Type} (c : Py A) (k : A -> Py B) : Py B :=
  fun a =>
    match c a with
    | (inl e, a') => (inl e, a')
    | (inr x, a') => k x a'
    end.

Notation "x <- c ;; k" := (py_bind c (fun x => k))
  (at level 100, c at next level, right associativity).

Notation "c ;;; k" := (py_bind c (fun _ => k))
  (at level 100, right associativity).

(** [try: body finally: fin]: [fin] runs however [body] ends; an exception
    of [fin] replaces the outcome of [body]. *)
Definition py_finally {A : Type} (body : Py A) (fin : Py unit) : Py A :=
  fun a =>
    match body a with
    | (r, a1) =>
        match fin a1 with
        | (inl e, a2) => (inl e, a2)
        | (inr _, a2) => (r, a2)
        end
    end.

(** [try: body except Exception as e: handler(e)] *)
Definition py_except {A : Type} (body : Py A) (handler : PyExn -> Py A) : Py A :=
  fun a =>
    match body a with
    | (inl e, a1) => handler e a1
    | (inr x, a1) => (inr x, a1)
    end.

Definition py_time : Py Q :=
  fun a => let (t, w) := time_time (app_world a) in (inr t, set_app_world w a).

(** [time.sleep(d)] refuses a negative length. *)
Definition py_sleep (d : Q) : Py unit :=
  fun a =>
    if Qle_bool 0 d then (inr tt, set_app_world (time_sleep d (app_world a)) a)
    else (inl (Raise "ValueError" "sleep length must be non-negative"), a).

Definition py_log (args : list PyVal) (kwargs : Dict) : Py unit :=
  fun a =>
    match log args kwargs (app_world a) with
    | inl e => (inl e, a)
    | inr w => (inr tt, set_app_world w a)
    end.

Definition REQS_inc (endpoint status : string) : Py unit :=
  fun a => (inr tt, set_REQS (counter_inc (endpoint, status) (REQS a)) a).

Definition ERRORS_inc (endpoint type : string) : Py unit :=
  fun a => (inr tt, set_ERRORS (counter_inc (endpoint, type) (ERRORS a)) a).

(** The [finally] clause of every handler:
    [LAT.labels(endpoint).observe(time.time() - start)]. *)
Definition observe_latency (endpoint : string) (start : Q) : Py unit :=
  t <- py_time ;;
  fun a => (inr tt, set_LAT (histogram_observe endpoint (t - start)%Q (LAT a)) a).

(** [a / b] on integers. *)
Definition py_truediv (a b : Z) : Py Q :=
  if b =? 0 then py_raise (Raise "ZeroDivisionError" "division by zero")
  else py_ret (inject_Z a / inject_Z b)%Q.

(** [str(e)] *)
Definition exn_str (e : PyExn) : string :=
  match e with Raise _ msg => msg end.

(** [for i in range(n): body(i)], started at [i]. *)
Fixpoint for_range (count : nat) (i : Z) (body : Z -> Py unit) : Py unit :=
  match count with
  | O => py_ret tt
  | S count' => body i ;;; for_range count' (i + 1) body
  end.

(** Lines 46-48. *)
Definition health : Dict := [("status", PStr "ok"); ("app", PStr APP_NAME)].

(** Lines 54-63. *)
Definition ok (user : PyVal) : Py Reply :=
  let endpoint := "/ok" in
  start <- py_time ;;
  py_finally
    (py_log [PStr "info"; PStr "Request OK"]
            [("endpoint", PStr endpoint); ("user", user)] ;;;
     REQS_inc endpoint "200" ;;;
     py_ret (Json [("ok", PBool true); ("user", user)]))
    (observe_latency endpoint start).

(** Lines 65-74. *)
Definition warn : Py Reply :=
  let endpoint := "/warn" in
  start <- py_time ;;
  py_finally
    (py_log [PStr "warning"; PStr "Simulated warning"]
            [("endpoint", PStr endpoint); ("code", PStr "DEMO_WARN")] ;;;
     REQS_inc endpoint "200" ;;;
     py_ret (Json [("warn", PBool true)]))
    (observe_latency endpoint start).

(** Lines 76-102. *)
Definition error (kind : string) : Py Reply :=
  let endpoint := "/error" in
  start <- py_time ;;
  py_finally
    (py_log [PStr "error"; PStr "Simulated error trigger"]
            [("endpoint", PStr endpoint); ("kind", PStr kind)] ;;;
     if String.eqb kind "exception" then
       ERRORS_inc endpoint "exception" ;;;
       REQS_inc endpoint "500" ;;;
       py_except
         (py_truediv 1 0 ;;; py_ret ReplyNone)
         (fun e =>
            py_log [PStr "error"; PStr "Exception occurred"]
                   [("endpoint", PStr endpoint); ("exc", PStr (exn_str e))] ;;;
            py_raise e)
     else if String.eqb kind "timeout" then
       ERRORS_inc endpoint "timeout" ;;;
       py_sleep (25 # 10) ;;;
       REQS_inc endpoint "504" ;;;
       py_ret (Plain "gateway timeout (simulated)" 504)
     else
       ERRORS_inc endpoint "http500" ;;;
       REQS_inc endpoint "500" ;;;
       py_ret (Plain "internal error (simulated)" 500))
    (observe_latency endpoint start).

(** Lines 104-114. *)
Definition slow (ms : Z) : Py Reply :=
  let endpoint := "/slow" in
  start <- py_time ;;
  py_finally
    (py_sleep (inject_Z (Z.max ms 0) / 1000)%Q ;;;
     py_log [PStr "info"; PStr "Slow request served"]
            [("endpoint", PStr endpoint); ("ms", PInt ms)] ;;;
     REQS_inc endpoint "200" ;;;
     py_ret (Json [("slow", PBool true); ("ms", PInt ms)]))
    (observe_latency endpoint start).

(** Lines 116-127. *)
Definition spam_logs (lines : Z) (level : string) : Py Reply :=
  let endpoint := "/spam-logs" in
  start <- py_time ;;
  py_finally
    (let level := lower level in
     for_range (Z.to_nat (Z.min lines 5000)) 0
       (fun i =>
          py_log [PStr level; PStr "Spam log line"]
                 [("endpoint", PStr endpoint); ("i", PInt i);
                  ("batch", PInt lines)]) ;;;
     REQS_inc endpoint "200" ;;;
     py_ret (Json [("spammed", PInt lines); ("level", PStr level)]))
    (observe_latency endpoint start).

(** *** Vocabulary for the statements about the handlers *)


(** Counter [c'] is counter [c] with one more [inc()] on child [l]. *)
Definition counted (l : string * string) (c c' : gmap (string * string) nat)
  : Prop :=
  forall l', counter_value c' l'
             = (counter_value c l' + if decide (l' = l) then 1 else 0)%nat.

(** Histogram [h'] is [h] with one more observation [v] on [endpoint]. *)
Definition observed (endpoint : string) (v : Q) (h h' : gmap string (list Q))
  : Prop :=
  forall e, observations h' e
            = if decide (e = endpoint) then v :: observations h e
              else observations h e.

(** The handler left the burn controller alone. *)
Definition burn_state_kept (w w' : World) : Prop :=
  burn_level w' = burn_level w /\ burn_lock w' = burn_lock w /\
  CPU_BURN w' = CPU_BURN w /\ RANDOM_GAUGE w' = RANDOM_GAUGE w /\
  rng w' = rng w.


(** A piece of handler code that leaves the burn controller alone. *)
Definition keeps_burn_state {A : Type} (c : Py A) : Prop :=
  forall a, burn_state_kept (app_world a) (app_world (snd (c a))).

End Semantics.

(** ** A concrete process, for the examples *)

Definition demo_world : World := initial_world 0 1.

Definition demo_run (acts : list Action) : Sys :=
  match sys_run (env := demo_env) acts (initial_sys 0 1) with
  | Some s => s
  | None => initial_sys 0 1
  end.

(** A request for level 7 that has just written it. *)
Definition demo_write : list Action :=
  [ARequest (Some 7); AHandler 0; AHandler 0].

(** A request for level 2 run up to its exception, then the background loop
    up to its busy loop. *)
Definition demo_spin : list Action :=
  [ARequest (Some 2); AHandler 0; AHandler 0; AHandler 0; AHandler 0;
   ABurner None; ABurner None; ABurner None; ABurner None; ABurner None;
   ABurner None; ABurner None; ABurner None].

Definition gauge_failure : PyExn := Raise "ValueError" "gauge rejected the value".

(** After that, a second request, for level 3, arrives while the loop is in
    its busy loop. *)
Definition demo_waiting : list Action := demo_spin ++ [ARequest (Some 3)].

(** The application with fresh metrics. *)
Definition demo_app : App :=
  {| app_world := demo_world; REQS := ∅; ERRORS := ∅; LAT := ∅ |}.

(** ** Proof steps shared by the invariant lemmas *)

Ltac lock_facts :=
  repeat match goal with
  | H : Some _ = Some _ |- _ => inversion H; clear H; subst
  | H : None = Some _ |- _ => discriminate H
  | H : Some _ = None |- _ => discriminate H
  | H : true = false |- _ => discriminate H
  | H : false = true |- _ => discriminate H
  end.

Ltac owner_goal :=
  match goal with
  | |- forall j, _ = Some (THandler j) -> (_ < _)%nat =>
      let j := fresh "j" in
      let H := fresh "H" in
      intros j H; rewrite ?length_insert;
      first [ discriminate H | inversion H; subst; assumption | eauto ]
  end.

(** * Properties *)

Section Properties.

Context {env : Env}.

(** ** The call of [log] on line 159 *)

(** The keyword [level=level] names the first parameter of [log], which the
    positional ["warning"] has already bound. *)
Lemma log_burn_raises level w :
  log [PStr "warning"; PStr "CPU burn updated"]
      [("endpoint", PStr "/burn"); ("level", PInt level)] w
  = inl burn_log_error.
Proof. reflexivity. Qed.

(** The other call sites pass keywords that are no parameter of [log]: the
    record reaches the logger ([/warn], line 70). *)
Lemma log_warn_emits w :
  exists record,
    log [PStr "warning"; PStr "Simulated warning"]
        [("endpoint", PStr "/warn"); ("code", PStr "DEMO_WARN")] w
    = inr (emit LWarning record (set_now (now w + tick)%Q w))
    /\ dict_get "msg" record = Some (PStr "Simulated warning")
    /\ dict_get "code" record = Some (PStr "DEMO_WARN").
Proof. eexists. split; [reflexivity | split; reflexivity]. Qed.

Lemma burn_unfold level w :
  burn_lock w = None ->
  burn level w
  = Some (inl burn_log_error,
          set_burn_lock None
            (set_burn_level level (set_burn_lock (Some (THandler 0)) w))).
Proof.
  intros Hfree. unfold burn. simpl. rewrite Hfree. reflexivity.
Qed.

(** ** The [/burn] endpoint and the body of [burn] *)

(** C1 (as the code behaves): for a level [n] in [0,10] and a free lock, the
    [/burn] request stores [n] in [burn_level] and then fails: the call of
    [log] on line 159 raises a [TypeError], so the request is answered with a
    server error instead of succeeding.  A read of [burn_level] afterwards
    gives [n]. *)
Theorem burn_endpoint_in_range_fails n w :
  0 <= n <= 10 ->
  burn_lock w = None ->
  exists w',
    burn_endpoint (Some n) w = Some (Http500 burn_log_error, w')
    /\ burn_level w' = n.
Proof.
  intros [Hlo Hhi] Hfree. unfold burn_endpoint, Query_resolve. simpl.
  destruct (0 <=? n) eqn:E1; [| apply Z.leb_gt in E1; lia].
  destruct (n <=? 10) eqn:E2; [| apply Z.leb_gt in E2; lia].
  simpl. rewrite (burn_unfold n w Hfree). eexists. split; reflexivity.
Qed.

(** C2: for a level [n] outside [0,10] the [/burn] request fails with the
    validation error [InvalidLevel] and the world, in particular the stored
    burn level, is unchanged; in the process no request thread is started. *)
Theorem burn_endpoint_rejects_out_of_range n w :
  n < 0 \/ 10 < n ->
  burn_endpoint (Some n) w = Some (Http422 (InvalidLevel n), w)
  /\ forall s, sys_step (ARequest (Some n)) s = Some s.
Proof.
  intros Hout.
  assert (Hq : Query_resolve burn_level_query (Some n) = inl (InvalidLevel n)).
  { unfold Query_resolve. simpl.
    destruct (0 <=? n) eqn:E1; destruct (n <=? 10) eqn:E2; simpl; try reflexivity.
    apply Z.leb_le in E1, E2. lia. }
  split.
  - unfold burn_endpoint. rewrite Hq. reflexivity.
  - intros s. unfold sys_step. rewrite Hq. reflexivity.
Qed.

(** C4 (as the code behaves): a call [burn(level)] starting with a free lock
    ends with an exception and the logger has received nothing: no record at
    warning severity, no message "CPU burn updated", and no returned level. *)
Theorem burn_emits_no_record level w :
  burn_lock w = None ->
  exists e w',
    burn level w = Some (inl e, w')
    /\ log_out w' = log_out w
    /\ is_TypeError e = true.
Proof.
  intros Hfree. rewrite (burn_unfold level w Hfree).
  do 2 eexists. split; [reflexivity | split; reflexivity].
Qed.

(** C9 (as the code behaves): the body of [burn] validates nothing: for every
    integer [level], in or out of [0,10], it stores [level] in [burn_level];
    it then raises the [TypeError] of line 159 instead of returning
    [{"burn_level": level}]. *)
Theorem burn_body_stores_then_raises level w :
  burn_lock w = None ->
  exists w',
    burn level w = Some (inl burn_log_error, w')
    /\ burn_level w' = level
    /\ burn_lock w' = None.
Proof.
  intros Hfree. rewrite (burn_unfold level w Hfree).
  eexists. split; [reflexivity | split; reflexivity].
Qed.

(** C10 (as the code behaves): without a [level] argument the parameter
    resolves to its default 0, and the request stores 0 in [burn_level]; it
    is then answered with the server error of line 159 instead of
    [{"burn_level": 0}]. *)
Theorem burn_endpoint_default_resets_then_fails w :
  burn_lock w = None ->
  Query_resolve burn_level_query None = inr 0
  /\ exists w',
       burn_endpoint None w = Some (Http500 burn_log_error, w')
       /\ burn_level w' = 0.
Proof.
  intros Hfree. split; [reflexivity |].
  unfold burn_endpoint. simpl Query_resolve. cbv iota.
  rewrite (burn_unfold 0 w Hfree). eexists. split; reflexivity.
Qed.


(** ** Invariants of the process *)


Lemma Query_resolve_range arg level :
  Query_resolve burn_level_query arg = inr level -> 0 <= level <= 10.
Proof.
  unfold Query_resolve. destruct arg as [v |]; simpl.
  - destruct (0 <=? v) eqn:E1; destruct (v <=? 10) eqn:E2; simpl;
      intros H; inversion H; subst.
    apply Z.leb_le in E1, E2. lia.
  - intros H. inversion H. lia.
Qed.

Lemma Inv_init t0 seed : Inv (initial_sys t0 seed).
Proof. split; simpl; easy. Qed.

Lemma Inv_burner_step f s b w :
  Inv s -> step_burner f (burner s) (world s) = Some (b, w) ->
  Inv {| world := w; burner := b; handlers := handlers s |}.
Proof.
  intros [Hlvl Hhs Hbl Hhl Hown Hnr Hlog] Hstep.
  destruct s as [w0 b0 hs]; simpl in *.
  assert (Hother : forall i h, hs !! i = Some h ->
            burn_lock w0 <> Some (THandler i) -> handler_holds h = false).
  { intros i h Hi Hne. destruct (handler_holds h) eqn:E; [| reflexivity].
    exfalso. apply Hne. apply (Hhl i h Hi). exact E. }
  destruct b0; simpl in Hstep.
  - (* BAcquire *)
    destruct (burn_lock w0) eqn:Hl; [discriminate |]. inversion Hstep; subst.
    split; simpl; try easy.
    intros i h Hi. rewrite (Hother i h Hi) by congruence. split; intros; lock_facts.
  - (* BRead *)
    inversion Hstep; subst. split; simpl; try easy.
  - (* BRelease *)
    inversion Hstep; subst. split; simpl; try easy.
    intros i h Hi.
    assert (Hmine : burn_lock w0 = Some TBurner) by (apply Hbl; reflexivity).
    rewrite (Hother i h Hi) by congruence. split; intros; lock_facts.
  - (* BSetCpu *)
    destruct f; inversion Hstep; subst; split; simpl; easy.
  - (* BSetRandom *)
    destruct (random_random (rng w0)) as [x r].
    destruct f; inversion Hstep; subst; split; simpl; easy.
  - (* BTest *)
    inversion Hstep; subst. split; simpl; try easy.
    destruct (lvl <=? 0); simpl; exact Hbl.
  - (* BIdleSleep *)
    destruct f; inversion Hstep; subst; split; simpl; easy.
  - (* BDeadline *)
    destruct f; inversion Hstep; subst; split; simpl; easy.
  - (* BSpin *)
    destruct f; [inversion Hstep; subst; split; simpl; easy |].
    simpl in Hstep. destruct (Qle_bool deadline (now w0));
      inversion Hstep; subst; split; simpl; easy.
  - (* BSleep *)
    destruct f; inversion Hstep; subst; split; simpl; easy.
  - discriminate.
Qed.


Lemma Inv_handler_step i h h' s w :
  Inv s -> handlers s !! i = Some h ->
  step_handler (THandler i) h (world s) = Some (h', w) ->
  Inv {| world := w; burner := burner s; handlers := <[i := h']> (handlers s) |}.
Proof.
  intros [Hlvl Hhs Hbl Hhl Hown Hnr Hlog] Hi Hstep.
  destruct s as [w0 b0 hs]; simpl in *.
  assert (Hlt : (i < length hs)%nat) by (eapply lookup_lt_Some; exact Hi).
  assert (Hok : level_ok h) by (eapply Forall_lookup_1; eassumption).
  pose proof (Hhl i h Hi) as Hmine.
  pose proof (Hnr i h Hi) as Hret.
  assert (Hlook : forall j x, <[i := h']> hs !! j = Some x ->
            (j = i /\ x = h') \/ (j <> i /\ hs !! j = Some x)).
  { intros j x Hj. apply list_lookup_insert_Some in Hj.
    destruct Hj as [(-> & -> & _) | (Hne & Hj)]; [left | right]; auto. }
  destruct h; simpl in Hstep.
  - (* HAcquire *)
    destruct (burn_lock w0) eqn:Hl; [discriminate |]. inversion Hstep; subst.
    split; simpl; try easy; try owner_goal.
    + apply Forall_insert; assumption.
    + split; intros H; [| discriminate]. apply Hbl in H. discriminate.
    + intros j x Hj. destruct (Hlook j x Hj) as [[-> ->] | [Hne Hj']].
      * simpl. split; reflexivity.
      * split; intros H.
        -- apply (Hhl j x Hj') in H. discriminate.
        -- inversion H. congruence.
    + intros j x Hj. destruct (Hlook j x Hj) as [[-> ->] | [Hne Hj']];
        [reflexivity | eauto].
  - (* HAssign *)
    inversion Hstep; subst. split; simpl; try easy; try owner_goal.
    + apply Forall_insert; assumption.
    + intros j x Hj. destruct (Hlook j x Hj) as [[-> ->] | [Hne Hj']];
        [exact Hmine | eauto].
    + intros j x Hj. destruct (Hlook j x Hj) as [[-> ->] | [Hne Hj']];
        [reflexivity | eauto].
  - (* HRelease *)
    inversion Hstep; subst.
    assert (Hheld : burn_lock w0 = Some (THandler i)) by (apply Hmine; reflexivity).
    split; simpl; try easy; try owner_goal.
    + apply Forall_insert; assumption.
    + split; intros H; [| discriminate]. apply Hbl in H. congruence.
    + intros j x Hj. destruct (Hlook j x Hj) as [[-> ->] | [Hne Hj']].
      * simpl. split; discriminate.
      * split; intros H; [| discriminate].
        apply (Hhl j x Hj') in H. congruence.
    + intros j x Hj. destruct (Hlook j x Hj) as [[-> ->] | [Hne Hj']];
        [reflexivity | eauto].
  - (* HLog *)
    inversion Hstep; subst.
    split; simpl; try easy; try owner_goal.
    + apply Forall_insert; [assumption | exact I].
    + intros j x Hj. destruct (Hlook j x Hj) as [[-> ->] | [Hne Hj']];
        [exact Hmine | eauto].
    + intros j x Hj. destruct (Hlook j x Hj) as [[-> ->] | [Hne Hj']];
        [reflexivity | eauto].
  - (* HReturn *)
    discriminate Hret.
  - discriminate.
Qed.

Lemma Inv_request level s :
  Inv s -> 0 <= level <= 10 ->
  Inv {| world := world s; burner := burner s;
         handlers := handlers s ++ [HAcquire level] |}.
Proof.
  intros [Hlvl Hhs Hbl Hhl Hown Hnr Hlog] Hrange.
  destruct s as [w0 b0 hs]; simpl in *.
  assert (Hlook : forall j x, (hs ++ [HAcquire level]) !! j = Some x ->
            hs !! j = Some x \/ x = HAcquire level).
  { intros j x Hj. apply lookup_app_Some in Hj.
    destruct Hj as [Hj | [_ Hj]]; [left; exact Hj | right].
    apply list_lookup_singleton_Some in Hj. destruct Hj as [_ Hj]. congruence. }
  split; simpl; try easy.
  - apply Forall_app. split; [assumption |].
    constructor; [exact Hrange | constructor].
  - intros j x Hj. destruct (Hlook j x Hj) as [Hj' | ->]; [eauto |].
    simpl. split; [discriminate |]. intros Hheld.
    apply lookup_app_Some in Hj. destruct Hj as [Hj | [Hge Hj]].
    + apply (Hhl j _ Hj) in Hheld. discriminate.
    + apply Hown in Hheld. lia.
  - intros j Hj. rewrite length_app. apply Hown in Hj. simpl. lia.
  - intros j x Hj. destruct (Hlook j x Hj) as [Hj' | ->]; [eauto | reflexivity].
Qed.


Lemma Inv_step a s s' : Inv s -> sys_step a s = Some s' -> Inv s'.
Proof.
  intros HI Hstep. destruct a as [f | i | arg]; simpl in Hstep.
  - destruct (step_burner f (burner s) (world s)) as [[b w] |] eqn:E;
      [| discriminate].
    inversion Hstep; subst. eapply Inv_burner_step; eassumption.
  - destruct (handlers s !! i) as [h |] eqn:Hi; [| discriminate].
    destruct (step_handler (THandler i) h (world s)) as [[h' w] |] eqn:E;
      [| discriminate].
    inversion Hstep; subst. eapply Inv_handler_step; eassumption.
  - destruct (Query_resolve burn_level_query arg) as [err | level] eqn:E.
    + inversion Hstep; subst. exact HI.
    + inversion Hstep; subst. apply Inv_request; [exact HI |].
      eapply Query_resolve_range. exact E.
Qed.

Lemma reachable_Inv s : reachable s -> Inv s.
Proof.
  induction 1 as [t0 seed | a s s' _ IH Hstep].
  - apply Inv_init.
  - eapply Inv_step; eassumption.
Qed.

Lemma sys_run_reachable acts s s' :
  reachable s -> sys_run acts s = Some s' -> reachable s'.
Proof.
  revert s. induction acts as [| a acts IH]; intros s Hs Hrun; simpl in Hrun.
  - inversion Hrun; subst. exact Hs.
  - destruct (sys_step a s) as [s1 |] eqn:E; [| discriminate].
    eapply IH; [| exact Hrun]. eapply reach_step; eassumption.
Qed.

(** X17: in every reachable state at most one thread is inside
    [with burn_lock:]: a request thread that holds the lock excludes the
    background loop and every other request thread. *)
Lemma mutual_exclusion s :
  reachable s ->
  (forall i h, handlers s !! i = Some h ->
     handler_holds h = true -> burner_holds (burner s) = false)
  /\ (forall i j h h', handlers s !! i = Some h -> handlers s !! j = Some h' ->
        handler_holds h = true -> handler_holds h' = true -> i = j).
Proof.
  intros Hs. destruct (reachable_Inv s Hs) as [_ _ Hbl Hhl _ _ _]. split.
  - intros i h Hi Hh. apply (Hhl i h Hi) in Hh.
    destruct (burner_holds (burner s)) eqn:E; [| reflexivity].
    assert (burn_lock (world s) = Some TBurner) by (apply Hbl; reflexivity).
    congruence.
  - intros i j h h' Hi Hj Hh Hh'.
    apply (Hhl i h Hi) in Hh. apply (Hhl j h' Hj) in Hh'. congruence.
Qed.

(** X19: whatever the interleaving of requests and loop, no request thread
    ever gets past line 159 to the [return] of [burn], and the logger never
    receives a record from [burn]. *)
Lemma burn_never_returns s :
  reachable s ->
  log_out (world s) = []
  /\ forall i h, handlers s !! i = Some h -> returned h = false.
Proof.
  intros Hs. destruct (reachable_Inv s Hs) as [_ _ _ _ _ Hnr Hlog]. auto.
Qed.

(** C3: the stored burn level is 0 when the process starts, and in every
    state the process can reach, by any interleaving of request threads
    accepted by the [/burn] endpoint and of steps of the background
    loop, it satisfies [0 <= burn_level <= 10]. *)
Theorem burn_level_always_in_range :
  (forall t0 seed, burn_level (world (initial_sys t0 seed)) = 0)
  /\ (forall s, reachable s -> 0 <= burn_level (world s) <= 10).
Proof.
  split; [reflexivity |].
  intros s Hs. exact (inv_level s (reachable_Inv s Hs)).
Qed.

(** C8: in every reachable state of the process, when the background loop
    is in its burn phase (lines 147-149) the lock is not held by it; it holds
    the lock exactly while it is at the read of [burn_level] inside
    [with burn_lock:] (lines 136-137). *)
Theorem burner_never_spins_with_lock s :
  reachable s ->
  (spinning (burner s) = true -> burn_lock (world s) <> Some TBurner)
  /\ (burn_lock (world s) = Some TBurner <-> burner_holds (burner s) = true).
Proof.
  intros Hs. destruct (reachable_Inv s Hs) as [_ _ Hbl _ _ _ _].
  split; [| symmetry; exact Hbl].
  intros Hspin Hheld. apply Hbl in Hheld.
  destruct (burner s); simpl in *; discriminate.
Qed.

(** X18: while the loop is in its burn phase, a request waiting at
    [with burn_lock:] gets the lock as soon as no other request holds it:
    the busy loop never keeps a writer out. *)
Lemma setter_not_blocked_by_spin s i level :
  reachable s ->
  spinning (burner s) = true ->
  handlers s !! i = Some (HAcquire level) ->
  (forall j h, handlers s !! j = Some h -> handler_holds h = false) ->
  exists s', sys_step (AHandler i) s = Some s'
             /\ burn_lock (world s') = Some (THandler i).
Proof.
  intros Hs Hspin Hi Hnone.
  destruct (reachable_Inv s Hs) as [_ _ Hbl Hhl Hown _ _].
  assert (Hfree : burn_lock (world s) = None).
  { destruct (burn_lock (world s)) as [[| j] |] eqn:E; [| | reflexivity].
    - assert (Hb : burner_holds (burner s) = true) by (apply Hbl; reflexivity).
      destruct (burner s); simpl in *; discriminate.
    - pose proof (Hown j eq_refl) as Hlt. apply lookup_lt_is_Some in Hlt.
      destruct Hlt as [h Hj]. pose proof (Hnone j h Hj) as Hf.
      assert (Hh : handler_holds h = true) by (apply (Hhl j h Hj); reflexivity).
      congruence. }
  unfold sys_step. rewrite Hi. simpl. rewrite Hfree.
  eexists. split; reflexivity.
Qed.


(** ** One iteration of [cpu_burner] *)



Lemma same_shared_refl w : same_shared w w.
Proof. repeat split. Qed.










(** ** Exceptions inside the loop *)



(** * Further properties: [log] and the other request handlers *)

(** ** Dictionaries *)





(** ** Argument binding of [log] *)

Lemma dict_get_app_Some k d d' :
  dict_get k d <> None -> dict_get k (d ++ d') <> None.
Proof.
  induction d as [| [k' v'] d IH]; simpl; [congruence |].
  destruct (String.eqb k k'); [congruence | exact IH].
Qed.

Lemma bind_positional_first p params a args bound :
  bind_positional (p :: params) (a :: args) = Some bound ->
  dict_get p bound = Some a.
Proof.
  cbn [bind_positional].
  destruct (bind_positional params args); intros H; inversion H; subst.
  cbn [dict_get]. rewrite String.eqb_refl. reflexivity.
Qed.

Lemma bind_keywords_collision p kwargs : forall bound extra,
  is_param log_sig p = true ->
  dict_get p bound <> None ->
  In p (map fst kwargs) ->
  exists m, bind_keywords log_sig kwargs bound extra = inl (TypeError m).
Proof.
  induction kwargs as [| [k v] kwargs IH]; intros bound extra Hp Hb Hin.
  - destruct Hin.
  - simpl. destruct (is_param log_sig k) eqn:Ek.
    + destruct (dict_get k bound) eqn:Eb; [eexists; reflexivity |].
      destruct Hin as [Heq | Hin]; [simpl in Heq; subst; congruence |].
      apply IH; [exact Hp | apply dict_get_app_Some; exact Hb | exact Hin].
    + simpl. destruct Hin as [Heq | Hin];
        [simpl in Heq; subst; congruence |].
      apply IH; assumption.
Qed.



(** X1: a call of [log] that passes [level] (with at least one positional
    argument) or [msg] (with at least two) as a keyword raises a [TypeError],
    whatever the other arguments are; nothing reaches the logger. *)
Theorem log_keyword_collision_raises args kwargs w :
  (args <> [] -> In "level" (map fst kwargs) ->
     exists m, log args kwargs w = inl (TypeError m))
  /\ ((2 <= length args)%nat -> In "msg" (map fst kwargs) ->
        exists m, log args kwargs w = inl (TypeError m)).
Proof.
  split.
  - intros Hne Hin. unfold log, bind_call.
    destruct (bind_positional (sig_params log_sig) args) as [bound |] eqn:Eb;
      [| eexists; reflexivity].
    destruct (bind_keywords_collision "level" kwargs bound [] eq_refl) as [m Hm];
      [| exact Hin | rewrite Hm; eexists; reflexivity].
    destruct args as [| a0 args]; [congruence |].
    rewrite (bind_positional_first _ _ _ _ _ Eb). congruence.
  - intros Hlen Hin. unfold log, bind_call.
    destruct (bind_positional (sig_params log_sig) args) as [bound |] eqn:Eb;
      [| eexists; reflexivity].
    destruct (bind_keywords_collision "msg" kwargs bound [] eq_refl) as [m Hm];
      [| exact Hin | rewrite Hm; eexists; reflexivity].
    destruct args as [| a0 [| a1 args]]; simpl in Hlen; try lia.
    destruct args as [| a2 args]; [| discriminate Eb].
    inversion Eb; subst. simpl. congruence.
Qed.



(** ** Metrics *)

Lemma counted_inc l c : counted l c (counter_inc l c).
Proof.
  intros l'. unfold counter_inc, counter_value.
  destruct (decide (l' = l)) as [-> | Hne].
  - rewrite lookup_insert_eq. simpl. lia.
  - rewrite lookup_insert_ne by congruence. lia.
Qed.

Lemma observed_observe endpoint v h :
  observed endpoint v h (histogram_observe endpoint v h).
Proof.
  intros e. unfold histogram_observe, observations.
  destruct (decide (e = endpoint)) as [-> | Hne].
  - rewrite lookup_insert_eq. reflexivity.
  - rewrite lookup_insert_ne by congruence. reflexivity.
Qed.

(** ** [/ok], [/warn] and [/slow] *)

(** X3: [ok(user)] never raises.  It hands one record to [logger.info] with
    the message and the user, counts the request once under
    [("/ok", "200")] and nowhere else, leaves the error counter alone,
    observes one latency for [/ok], the time of two clock readings, and
    returns the user it was given. *)
Theorem ok_serves user a :
  exists record v a',
    ok user a = (inr (Json [("ok", PBool true); ("user", user)]), a')
    /\ log_out (app_world a') = (LInfo, record) :: log_out (app_world a)
    /\ dict_get "msg" record = Some (PStr "Request OK")
    /\ dict_get "endpoint" record = Some (PStr "/ok")
    /\ dict_get "user" record = Some user
    /\ counted ("/ok", "200") (REQS a) (REQS a')
    /\ ERRORS a' = ERRORS a
    /\ observed "/ok" v (LAT a) (LAT a')
    /\ (v == 2 * tick)%Q.
Proof.
  eexists. exists (now (app_world a) + tick + tick - now (app_world a))%Q.
  eexists. split; [reflexivity |]. simpl.
  split; [reflexivity |]. repeat (split; [reflexivity |]).
  split; [apply counted_inc |]. split; [reflexivity |].
  split; [apply observed_observe | ring].
Qed.

(** X4: [warn()] never raises.  It hands one record to [logger.warning]
    carrying the code [DEMO_WARN], counts the request once under
    [("/warn", "200")] although it reports a warning, leaves the error
    counter alone and observes one latency for [/warn]. *)
Theorem warn_serves a :
  exists record v a',
    warn a = (inr (Json [("warn", PBool true)]), a')
    /\ log_out (app_world a') = (LWarning, record) :: log_out (app_world a)
    /\ dict_get "msg" record = Some (PStr "Simulated warning")
    /\ dict_get "code" record = Some (PStr "DEMO_WARN")
    /\ counted ("/warn", "200") (REQS a) (REQS a')
    /\ ERRORS a' = ERRORS a
    /\ observed "/warn" v (LAT a) (LAT a')
    /\ (v == 2 * tick)%Q.
Proof.
  eexists. exists (now (app_world a) + tick + tick - now (app_world a))%Q.
  eexists. split; [reflexivity |]. simpl.
  split; [reflexivity |]. repeat (split; [reflexivity |]).
  split; [apply counted_inc |]. split; [reflexivity |].
  split; [apply observed_observe | ring].
Qed.




(** ** [/error] *)

(** X6: [error("exception")] ends with the [ZeroDivisionError] of [1 / 0],
    re-raised after the handler has logged it.  Before that it has counted
    the error under [("/error", "exception")] and the request under
    [("/error", "500")] and handed two records to [logger.error], the second
    carrying the text of the exception; the latency is observed all the same,
    by the [finally] clause. *)
Theorem error_exception_reraises a :
  exists r1 r2 v a',
    error "exception" a
    = (inl (Raise "ZeroDivisionError" "division by zero"), a')
    /\ log_out (app_world a')
       = (LError, r2) :: (LError, r1) :: log_out (app_world a)
    /\ dict_get "msg" r1 = Some (PStr "Simulated error trigger")
    /\ dict_get "msg" r2 = Some (PStr "Exception occurred")
    /\ dict_get "exc" r2 = Some (PStr "division by zero")
    /\ counted ("/error", "exception") (ERRORS a) (ERRORS a')
    /\ counted ("/error", "500") (REQS a) (REQS a')
    /\ observed "/error" v (LAT a) (LAT a')
    /\ (v == 3 * tick)%Q.
Proof.
  do 2 eexists.
  exists (now (app_world a) + tick + tick + tick - now (app_world a))%Q.
  eexists. split; [reflexivity |]. simpl.
  repeat (split; [reflexivity |]).
  split; [apply counted_inc |]. split; [apply counted_inc |].
  split; [apply observed_observe | ring].
Qed.

(** X7: [error("timeout")] sleeps 2.5 s and answers 504.  The error is
    counted under [("/error", "timeout")] and the request under
    [("/error", "504")], and the observed latency is the 2.5 s plus two clock
    readings. *)
Theorem error_timeout_waits a :
  exists v a',
    error "timeout" a = (inr (Plain "gateway timeout (simulated)" 504), a')
    /\ events (app_world a') = ESleep (25 # 10) :: events (app_world a)
    /\ counted ("/error", "timeout") (ERRORS a) (ERRORS a')
    /\ counted ("/error", "504") (REQS a) (REQS a')
    /\ observed "/error" v (LAT a) (LAT a')
    /\ (v == (25 # 10) + 2 * tick)%Q.
Proof.
  exists (now (app_world a) + tick + tick + (25 # 10) - now (app_world a))%Q.
  eexists. split; [reflexivity |]. simpl.
  split; [reflexivity |].
  split; [apply counted_inc |]. split; [apply counted_inc |].
  split; [apply observed_observe | ring].
Qed.

(** X8: every [kind] other than ["exception"] and ["timeout"], whether it is
    ["http500"] or any other text, is answered with the simulated internal
    error, status 500, and counted under [("/error", "http500")]; the record
    of the trigger keeps the kind as given. *)
Theorem error_other_kinds_are_http500 kind a :
  kind <> "exception" ->
  kind <> "timeout" ->
  exists record v a',
    error kind a = (inr (Plain "internal error (simulated)" 500), a')
    /\ log_out (app_world a') = (LError, record) :: log_out (app_world a)
    /\ dict_get "kind" record = Some (PStr kind)
    /\ counted ("/error", "http500") (ERRORS a) (ERRORS a')
    /\ counted ("/error", "500") (REQS a) (REQS a')
    /\ observed "/error" v (LAT a) (LAT a')
    /\ (v == 2 * tick)%Q.
Proof.
  intros H1 H2.
  assert (E1 : String.eqb kind "exception" = false) by (apply String.eqb_neq; exact H1).
  assert (E2 : String.eqb kind "timeout" = false) by (apply String.eqb_neq; exact H2).
  eexists. exists (now (app_world a) + tick + tick - now (app_world a))%Q.
  eexists. split.
  - unfold error, py_bind, py_finally. simpl. rewrite E1, E2. reflexivity.
  - simpl. repeat (split; [reflexivity |]).
    split; [apply counted_inc |]. split; [apply counted_inc |].
    split; [apply observed_observe | ring].
Qed.

(** X9: whatever the kind, and whether the handler returns or raises, a call
    of [error] counts exactly one error and exactly one request, both for the
    endpoint [/error] and the request with status 500 or 504, and observes
    exactly one latency; it raises exactly when the kind is ["exception"]. *)
Theorem error_accounting kind a :
  exists type status v,
    counted ("/error", type) (ERRORS a) (ERRORS (snd (error kind a)))
    /\ counted ("/error", status) (REQS a) (REQS (snd (error kind a)))
    /\ (status = "500" \/ status = "504")
    /\ observed "/error" v (LAT a) (LAT (snd (error kind a)))
    /\ ((exists e, fst (error kind a) = inl e) <-> kind = "exception").
Proof.
  destruct (String.eqb kind "exception") eqn:E1.
  - apply String.eqb_eq in E1. subst kind.
    exists "exception", "500",
      (now (app_world a) + tick + tick + tick - now (app_world a))%Q.
    simpl. split; [apply counted_inc |]. split; [apply counted_inc |].
    split; [left; reflexivity |]. split; [apply observed_observe |].
    split; [reflexivity | intros _; eexists; reflexivity].
  - destruct (String.eqb kind "timeout") eqn:E2.
    + apply String.eqb_eq in E2. subst kind.
      exists "timeout", "504",
        (now (app_world a) + tick + tick + (25 # 10) - now (app_world a))%Q.
      simpl. split; [apply counted_inc |]. split; [apply counted_inc |].
      split; [right; reflexivity |]. split; [apply observed_observe |].
      split; [intros [e He]; discriminate | discriminate].
    + exists "http500", "500",
        (now (app_world a) + tick + tick - now (app_world a))%Q.
      unfold error, py_bind, py_finally. simpl. rewrite E1, E2. simpl.
      split; [apply counted_inc |]. split; [apply counted_inc |].
      split; [left; reflexivity |]. split; [apply observed_observe |].
      apply String.eqb_neq in E1.
      split; [intros [e He]; discriminate | congruence].
Qed.


(** ** [/spam-logs] *)







(** ** The handlers and the burn controller *)

Lemma burn_state_kept_refl w : burn_state_kept w w.
Proof. repeat split. Qed.

Lemma burn_state_kept_trans w1 w2 w3 :
  burn_state_kept w1 w2 -> burn_state_kept w2 w3 -> burn_state_kept w1 w3.
Proof.
  unfold burn_state_kept.
  intros (A1 & A2 & A3 & A4 & A5) (B1 & B2 & B3 & B4 & B5).
  repeat split; congruence.
Qed.

Lemma log_keeps args kwargs w w' :
  log args kwargs w = inr w' -> burn_state_kept w w'.
Proof.
  unfold log. destruct (bind_call log_sig args kwargs) as [e | [bound fields]];
    [discriminate |].
  destruct (dict_get "level" bound) as [level |]; [| discriminate].
  destruct (dict_get "msg" bound) as [msg |]; [| discriminate].
  simpl. destruct level; intros H; inversion H; subst. repeat split.
Qed.

Lemma keeps_ret {A : Type} (x : A) : keeps_burn_state (py_ret x).
Proof. intros a. apply burn_state_kept_refl. Qed.

Lemma keeps_raise {A : Type} (e : PyExn) : keeps_burn_state (@py_raise A e).
Proof. intros a. apply burn_state_kept_refl. Qed.

Lemma keeps_bind {A B : Type} (c : Py A) (k : A -> Py B) :
  keeps_burn_state c -> (forall x, keeps_burn_state (k x)) ->
  keeps_burn_state (py_bind c k).
Proof.
  intros Hc Hk a. unfold py_bind. specialize (Hc a).
  destruct (c a) as [[e | x] a1]; simpl in *; [exact Hc |].
  eapply burn_state_kept_trans; [exact Hc | apply Hk].
Qed.

Lemma keeps_finally {A : Type} (body : Py A) (fin : Py unit) :
  keeps_burn_state body -> keeps_burn_state fin ->
  keeps_burn_state (py_finally body fin).
Proof.
  intros Hb Hf a. unfold py_finally. specialize (Hb a).
  destruct (body a) as [r a1]. specialize (Hf a1).
  destruct (fin a1) as [[e | u] a2]; simpl in *;
    eapply burn_state_kept_trans; eassumption.
Qed.

Lemma keeps_except {A : Type} (body : Py A) (handler : PyExn -> Py A) :
  keeps_burn_state body -> (forall e, keeps_burn_state (handler e)) ->
  keeps_burn_state (py_except body handler).
Proof.
  intros Hb Hh a. unfold py_except. specialize (Hb a).
  destruct (body a) as [[e | x] a1]; simpl in *; [| exact Hb].
  eapply burn_state_kept_trans; [exact Hb | apply Hh].
Qed.

Lemma keeps_time : keeps_burn_state py_time.
Proof. intros a. repeat split. Qed.

Lemma keeps_sleep d : keeps_burn_state (py_sleep d).
Proof. intros a. unfold py_sleep. destruct (Qle_bool 0 d); repeat split. Qed.

Lemma keeps_log args kwargs : keeps_burn_state (py_log args kwargs).
Proof.
  intros a. unfold py_log.
  destruct (log args kwargs (app_world a)) as [e | w] eqn:E; simpl.
  - apply burn_state_kept_refl.
  - eapply log_keeps. exact E.
Qed.

Lemma keeps_REQS_inc endpoint status : keeps_burn_state (REQS_inc endpoint status).
Proof. intros a. repeat split. Qed.

Lemma keeps_ERRORS_inc endpoint type : keeps_burn_state (ERRORS_inc endpoint type).
Proof. intros a. repeat split. Qed.

Lemma keeps_observe_latency endpoint start :
  keeps_burn_state (observe_latency endpoint start).
Proof. intros a. repeat split. Qed.

Lemma keeps_truediv x y : keeps_burn_state (py_truediv x y).
Proof. intros a. unfold py_truediv. destruct (y =? 0); repeat split. Qed.

Lemma keeps_for_range n body : forall i,
  (forall j, keeps_burn_state (body j)) -> keeps_burn_state (for_range n i body).
Proof.
  induction n as [| n IH]; intros i Hbody; simpl.
  - apply keeps_ret.
  - apply keeps_bind; [apply Hbody | intros _; apply IH; exact Hbody].
Qed.

Create HintDb keeps discriminated.

#[local] Hint Resolve keeps_bind keeps_finally keeps_except keeps_for_range
  keeps_ret keeps_raise keeps_time keeps_sleep keeps_log keeps_REQS_inc
  keeps_ERRORS_inc keeps_observe_latency keeps_truediv : keeps.

(** X11: none of the handlers [ok], [warn], [error], [slow] and
    [spam_logs] touches the burn controller: whatever their arguments and
    however they end, [burn_level], [burn_lock], both gauges and the random
    generator are what they were before the call. *)
Theorem handlers_keep_burn_state :
  (forall user, keeps_burn_state (ok user))
  /\ keeps_burn_state warn
  /\ (forall kind, keeps_burn_state (error kind))
  /\ (forall ms, keeps_burn_state (slow ms))
  /\ (forall lines level, keeps_burn_state (spam_logs lines level)).
Proof.
  split; [| split; [| split; [| split]]].
  - intros user. unfold ok. auto 20 with keeps.
  - unfold warn. auto 20 with keeps.
  - intros kind. unfold error.
    apply keeps_bind; [apply keeps_time | intros start].
    apply keeps_finally; [| apply keeps_observe_latency].
    apply keeps_bind; [apply keeps_log | intros _].
    destruct (String.eqb kind "exception"); [auto 20 with keeps |].
    destruct (String.eqb kind "timeout"); auto 20 with keeps.
  - intros ms. unfold slow. auto 20 with keeps.
  - intros lines level. unfold spam_logs. auto 20 with keeps.
Qed.


(** ** More on the burn controller *)

Lemma step_burner_reads f b w b' w' :
  step_burner f b w = Some (b', w') ->
  burn_level w' = burn_level w /\ log_out w' = log_out w.
Proof.
  destruct b; simpl; intros H.
  - destruct (burn_lock w); inversion H; subst; split; reflexivity.
  - inversion H; subst; split; reflexivity.
  - inversion H; subst; split; reflexivity.
  - destruct f; inversion H; subst; split; reflexivity.
  - destruct (random_random (rng w)). destruct f; inversion H; subst;
      split; reflexivity.
  - inversion H; subst; split; reflexivity.
  - destruct f; inversion H; subst; split; reflexivity.
  - destruct f; inversion H; subst; split; reflexivity.
  - destruct f; [inversion H; subst; split; reflexivity |].
    simpl in H. destruct (Qle_bool deadline (now w)); inversion H; subst;
      split; reflexivity.
  - destruct f; inversion H; subst; split; reflexivity.
  - discriminate.
Qed.

(** X12: the background loop only reads the level: over any number of its
    steps, with any exceptions raised by its library calls, [burn_level] is
    unchanged and the loop hands nothing to the logger. *)
Theorem cpu_burner_only_reads faults : forall b w b' w',
  run_burner faults b w = Some (b', w') ->
  burn_level w' = burn_level w /\ log_out w' = log_out w.
Proof.
  induction faults as [| f faults IH]; intros b w b' w' Hrun; simpl in Hrun.
  - inversion Hrun; subst. split; reflexivity.
  - destruct (step_burner f b w) as [[b1 w1] |] eqn:E; [| discriminate].
    destruct (step_burner_reads _ _ _ _ _ E) as [H1 H2].
    destruct (IH _ _ _ _ Hrun) as [H3 H4]. split; congruence.
Qed.


(** X14: a thread that has ended owns no lock.  In every reachable state a
    request thread whose call of [burn] is over, with the exception of line
    159 included, does not hold [burn_lock], and neither does a background
    loop that an exception has ended; so neither can block the other threads
    for good. *)
Theorem ended_threads_hold_no_lock s :
  reachable s ->
  (forall i r, handlers s !! i = Some (HDone r) ->
     burn_lock (world s) <> Some (THandler i))
  /\ (dead (burner s) = true -> burn_lock (world s) <> Some TBurner).
Proof.
  intros Hs. destruct (reachable_Inv s Hs) as [_ _ Hbl Hhl _ _ _]. split.
  - intros i r Hi Hheld. apply (Hhl i _ Hi) in Hheld. discriminate.
  - intros Hdead Hheld. apply Hbl in Hheld.
    destruct (burner s); simpl in *; discriminate.
Qed.



End Properties.

(** * The theorems at concrete inputs *)


Lemma demo_run_reachable acts : reachable (env := demo_env) (demo_run acts).
Proof.
  unfold demo_run.
  destruct (sys_run acts (initial_sys 0 1)) as [s |] eqn:E.
  - eapply sys_run_reachable; [apply reach_init | exact E].
  - apply reach_init.
Qed.

Lemma burn_endpoint_in_range_fails_witness :
  (0 <= 5 <= 10 /\ burn_lock demo_world = None)
  /\ exists w',
       burn_endpoint (env := demo_env) (Some 5) demo_world
       = Some (Http500 burn_log_error, w')
       /\ burn_level w' = 5.
Proof.
  split; [split; [lia | reflexivity] |].
  apply (burn_endpoint_in_range_fails (env := demo_env) 5 demo_world);
    [lia | reflexivity].
Defined.

Lemma burn_endpoint_rejects_out_of_range_witness :
  (11 < 0 \/ 10 < 11)
  /\ burn_endpoint (env := demo_env) (Some 11) demo_world
     = Some (Http422 (InvalidLevel 11), demo_world).
Proof.
  split; [right; lia |].
  apply (burn_endpoint_rejects_out_of_range (env := demo_env) 11 demo_world).
  right. lia.
Defined.

Lemma burn_level_always_in_range_witness :
  reachable (env := demo_env) (demo_run demo_write)
  /\ burn_level (world (demo_run demo_write)) = 7
  /\ 0 <= burn_level (world (demo_run demo_write)) <= 10.
Proof.
  split; [apply demo_run_reachable | split; [reflexivity |]].
  apply (proj2 (burn_level_always_in_range (env := demo_env))).
  apply demo_run_reachable.
Defined.

Lemma burn_emits_no_record_witness :
  burn_lock demo_world = None
  /\ exists e w',
       burn (env := demo_env) 3 demo_world = Some (inl e, w')
       /\ log_out w' = log_out demo_world
       /\ is_TypeError e = true.
Proof.
  split; [reflexivity |].
  apply (burn_emits_no_record (env := demo_env) 3 demo_world). reflexivity.
Defined.



(** With a clock that moves 1 ms per reading, the iteration at level 5 runs
    the body of the busy loop 99 times, leaves it at the reading 0.1 s and is
    back at the head of the loop 0.151 s after the start; at level 0 it is
    back after 0.2 s without a single pass. *)
Example iteration_at_level_5 :
  exists w',
    run_burner (env := demo_env) (steps (5 + (2 + 100 + 1))) BAcquire
      (set_burn_level 5 demo_world) = Some (BAcquire, w')
    /\ length (events w') = 100%nat
    /\ head (events w') = Some (ESleep (5 # 100))
    /\ (now w' == 151 # 1000)%Q.
Proof. eexists. split; [vm_compute; reflexivity | split; [| split]]; reflexivity. Qed.

Example iteration_at_level_0 :
  exists w',
    run_burner (env := demo_env) (steps 7) BAcquire demo_world = Some (BAcquire, w')
    /\ events w' = [ESleep (2 # 10)]
    /\ (now w' == 2 # 10)%Q.
Proof. eexists. split; [vm_compute; reflexivity | split]; reflexivity. Qed.



Lemma burner_never_spins_with_lock_witness :
  (reachable (env := demo_env) (demo_run demo_spin)
   /\ spinning (burner (demo_run demo_spin)) = true)
  /\ burn_lock (world (demo_run demo_spin)) <> Some TBurner.
Proof.
  split; [split; [apply demo_run_reachable | reflexivity] |].
  apply (proj1 (burner_never_spins_with_lock (env := demo_env)
                  (demo_run demo_spin) (demo_run_reachable demo_spin))).
  reflexivity.
Defined.

Lemma burn_body_stores_then_raises_witness :
  burn_lock demo_world = None
  /\ exists w',
       burn (env := demo_env) 1000 demo_world = Some (inl burn_log_error, w')
       /\ burn_level w' = 1000
       /\ burn_lock w' = None.
Proof.
  split; [reflexivity |].
  apply (burn_body_stores_then_raises (env := demo_env) 1000 demo_world).
  reflexivity.
Defined.

Lemma burn_endpoint_default_resets_then_fails_witness :
  burn_lock (set_burn_level 4 demo_world) = None
  /\ exists w',
       burn_endpoint (env := demo_env) None (set_burn_level 4 demo_world)
       = Some (Http500 burn_log_error, w')
       /\ burn_level w' = 0.
Proof.
  split; [reflexivity |].
  apply (proj2 (burn_endpoint_default_resets_then_fails (env := demo_env)
                  (set_burn_level 4 demo_world) eq_refl)).
Defined.

(** ** The further properties at concrete inputs *)

Lemma log_keyword_collision_raises_witness :
  ([PStr "warning"; PStr "CPU burn updated"] <> []
   /\ In "level" (map fst [("endpoint", PStr "/burn"); ("level", PInt 5)]))
  /\ exists m,
       log (env := demo_env) [PStr "warning"; PStr "CPU burn updated"]
         [("endpoint", PStr "/burn"); ("level", PInt 5)] demo_world
       = inl (TypeError m).
Proof.
  split; [split; [discriminate | right; left; reflexivity] |].
  apply (proj1 (log_keyword_collision_raises (env := demo_env)
                  [PStr "warning"; PStr "CPU burn updated"]
                  [("endpoint", PStr "/burn"); ("level", PInt 5)] demo_world)).
  - discriminate.
  - right. left. reflexivity.
Defined.


Lemma error_other_kinds_are_http500_witness :
  exists record v a',
    error (env := demo_env) "teapot" demo_app
    = (inr (Plain "internal error (simulated)" 500), a')
    /\ log_out (app_world a') = (LError, record) :: log_out (app_world demo_app)
    /\ dict_get "kind" record = Some (PStr "teapot")
    /\ counted ("/error", "http500") (ERRORS demo_app) (ERRORS a')
    /\ counted ("/error", "500") (REQS demo_app) (REQS a')
    /\ observed "/error" v (LAT demo_app) (LAT a')
    /\ (v == 2 * (1 # 1000))%Q.
Proof.
  apply (error_other_kinds_are_http500 (env := demo_env) "teapot" demo_app);
    discriminate.
Defined.


Lemma cpu_burner_only_reads_witness :
  run_burner (env := demo_env) [None; None; None; Some gauge_failure] BAcquire
    (set_burn_level 4 demo_world)
  = Some (BDead gauge_failure, set_burn_level 4 demo_world)
  /\ burn_level (set_burn_level 4 demo_world) = 4
  /\ log_out (set_burn_level 4 demo_world) = [].
Proof.
  split; [reflexivity |].
  apply (cpu_burner_only_reads (env := demo_env)
           [None; None; None; Some gauge_failure] BAcquire
           (set_burn_level 4 demo_world) (BDead gauge_failure)
           (set_burn_level 4 demo_world)).
  reflexivity.
Defined.

Lemma ended_threads_hold_no_lock_witness :
  (reachable (env := demo_env) (demo_run demo_spin)
   /\ handlers (demo_run demo_spin) !! 0%nat = Some (HDone (inl burn_log_error)))
  /\ burn_lock (world (demo_run demo_spin)) <> Some (THandler 0).
Proof.
  split; [split; [apply demo_run_reachable | reflexivity] |].
  apply (proj1 (ended_threads_hold_no_lock (env := demo_env)
                  (demo_run demo_spin) (demo_run_reachable demo_spin))
           0%nat (inl burn_log_error)).
  reflexivity.
Defined.



Lemma mutual_exclusion_witness :
  (reachable (env := demo_env) (demo_run demo_write)
   /\ handlers (demo_run demo_write) !! 0%nat = Some (HRelease 7)
   /\ handler_holds (HRelease 7) = true)
  /\ burner_holds (burner (demo_run demo_write)) = false.
Proof.
  split; [split; [apply demo_run_reachable | split; reflexivity] |].
  apply (proj1 (mutual_exclusion (env := demo_env) (demo_run demo_write)
                  (demo_run_reachable demo_write))
           0%nat (HRelease 7)); reflexivity.
Defined.

Lemma setter_not_blocked_by_spin_witness :
  (reachable (env := demo_env) (demo_run demo_waiting)
   /\ spinning (burner (demo_run demo_waiting)) = true
   /\ handlers (demo_run demo_waiting) !! 1%nat = Some (HAcquire 3))
  /\ exists s',
       sys_step (env := demo_env) (AHandler 1) (demo_run demo_waiting) = Some s'
       /\ burn_lock (world s') = Some (THandler 1).
Proof.
  split; [split; [apply demo_run_reachable | split; reflexivity] |].
  apply (setter_not_blocked_by_spin (env := demo_env) (demo_run demo_waiting)
           1%nat 3 (demo_run_reachable demo_waiting)).
  - reflexivity.
  - reflexivity.
  - intros [| [| j]] h Hj.
    + inversion Hj. reflexivity.
    + inversion Hj. reflexivity.
    + destruct j; discriminate Hj.
Defined.

Lemma burn_never_returns_witness :
  reachable (env := demo_env) (demo_run demo_spin)
  /\ log_out (world (demo_run demo_spin)) = []
  /\ forall i h, handlers (demo_run demo_spin) !! i = Some h -> returned h = false.
Proof.
  split; [apply demo_run_reachable |].
  apply (burn_never_returns (env := demo_env) (demo_run demo_spin)).
  apply demo_run_reachable.
Defined.
